(** * Loose XML matcher: key combiners and node fingerprints

    A shallow embedding of [src/main.cpp] (namespace [matcher]) and the
    properties of its key combiners, of the attribute and node keys built on
    them, and of the document matcher.

    Conventions of the embedding:
    - [keys::Key] is [std::size_t]; it is modelled as an integer of [Z] in
      the range [0, 2^64), with the wrap-around of every addition and left
      shift written out ([wrap]).
    - [std::hash<std::string>] and [std::hash<std::size_t>] belong to the
      standard library, not to the program: both are parameters
      ([stringHasher], [hash_key]) of everything that hashes.
    - A template parameter pack is a [list] of keys in argument order. *)

From Stdlib Require Import ZArith List String Ascii Bool Lia Permutation.
Import ListNotations.
Local Open Scope Z_scope.

(** ** Keys and their fixed-width arithmetic *)

Module keys.

(** [using Key = std::size_t;] *)
Definition Key : Type := Z.

Definition Key_bits : Z := 64.

Definition Key_modulus : Z := 2 ^ Key_bits.

(** Reduction of an integer to the width of a [Key]. *)
Definition wrap (z : Z) : Key := z mod Key_modulus.

Definition in_range (k : Z) : Prop := 0 <= k < Key_modulus.

(** [a + b] on [std::size_t]. *)
Definition key_add (a b : Key) : Key := wrap (a + b).

(** [a << n] on [std::size_t]: the bits shifted out are lost. *)
Definition key_shl (a : Key) (n : Z) : Key := wrap (Z.shiftl a n).

(** [a >> n] on [std::size_t]: a logical shift. *)
Definition key_shr (a : Key) (n : Z) : Key := Z.shiftr a n.

(** [a ^ b]. *)
Definition key_xor (a b : Key) : Key := Z.lxor a b.

(** The literal [0x9e3779b9]. It does not fit [int], so its type is
    [unsigned int] and it is zero-extended to a [Key]. *)
Definition MAGIC : Key := 0x9e3779b9.

Section Combiners.

(** [GetHasher<Key>()], that is [std::hash<std::size_t>]. *)
Variable hash_key : Key -> Key.

(** [detail::combineKeysUniquelyImpl(lhsKey, rhsKey)]: the new value of
    [lhsKey]. The additions associate to the left, as in the source. *)
Definition combineKeysUniquelyImpl (lhsKey rhsKey : Key) : Key :=
  key_xor lhsKey
    (key_add (key_add (key_add (hash_key rhsKey) MAGIC)
                      (key_shl lhsKey 6))
             (key_shr lhsKey 2)).

(** The fold [(detail::combineKeysUniquelyImpl(result, keys), ...)] over the
    comma operator: one call per key, from the first argument to the last,
    each updating [result]. *)
Fixpoint combineKeysUniquely_from (result : Key) (keys : list Key) : Key :=
  match keys with
  | [] => result
  | key :: rest =>
      combineKeysUniquely_from (combineKeysUniquelyImpl result key) rest
  end.

(** [combineKeysUniquely(keys...)]: [Key result{}], the fold, [return result]. *)
Definition combineKeysUniquely (keys : list Key) : Key :=
  combineKeysUniquely_from 0 keys.

End Combiners.

(** The unary right fold [(keys ^ ...)] of a pack that has a first key:
    [k1 ^ (k2 ^ (... ^ kn))]. *)
Fixpoint xor_pack (key : Key) (rest : list Key) : Key :=
  match rest with
  | [] => key
  | next :: rest' => key_xor key (xor_pack next rest')
  end.

(** [combineKeysLoosely(keys...)], [return (keys ^ ...);]. A unary fold over
    [^] has no value for the empty pack (only [&&], [||] and [,] have one),
    so the template has no instance without arguments: [None]. *)
Definition combineKeysLoosely (keys : list Key) : option Key :=
  match keys with
  | [] => None
  | key :: rest => Some (xor_pack key rest)
  end.

(** The two-argument instance [combineKeysLoosely(lhs, rhs)], the only one
    the program calls. *)
Definition combineKeysLoosely2 (lhs rhs : Key) : Key := xor_pack lhs [rhs].

End keys.

(** ** The tree provider *)

Module pugi.

(** Modelled from the spec: the tree provider (pugixml) is not among the
    sources; the program sees it only through the accessors below. An
    AttributeView is a read-only (name, value) pair of texts. *)
Record xml_attribute : Type := make_attribute
  { attribute_name : string;
    attribute_value : string }.

(** Modelled from the spec: a NodeView exposes a tag name, a direct text
    value, a sequence of attributes and a sequence of child nodes. The text
    value is what [child_value()] reports; it is a field of its own, as in
    the NodeView of the specification. *)
#[warnings="-register-all"] Inductive xml_node_struct : Type :=
  make_node (node_name : string) (node_child_value : string)
            (node_attributes : list xml_attribute)
            (node_children : list xml_node_struct).

Definition xml_attribute_eq_dec (a b : xml_attribute) : {a = b} + {a <> b}.
Proof. decide equality; apply string_dec. Defined.

(** Equality of subtrees is decidable. *)
Fixpoint xml_node_struct_eq_dec (a b : xml_node_struct) {struct a}
    : {a = b} + {a <> b}.
Proof.
  decide equality;
    [ apply (list_eq_dec xml_node_struct_eq_dec)
    | apply (list_eq_dec xml_attribute_eq_dec)
    | apply string_dec
    | apply string_dec ].
Defined.

(** Modelled from the spec: [pugi::xml_node] is a handle, which is either
    empty (the null handle, [None]) or refers to a node of the tree. The
    specification leaves the empty handle to the provider; the accessors
    below give it what pugixml defines for it: empty texts and empty
    ranges. *)
Definition xml_node : Type := option xml_node_struct.

(** Modelled from the spec: [xml_node::name()]; the empty handle has the
    empty name. *)
Definition name (node : xml_node) : string :=
  match node with
  | Some (make_node nm _ _ _) => nm
  | None => EmptyString
  end.

(** Modelled from the spec: [xml_node::child_value()]; the empty handle
    has the empty text. *)
Definition child_value (node : xml_node) : string :=
  match node with
  | Some (make_node _ txt _ _) => txt
  | None => EmptyString
  end.

(** Modelled from the spec: the attributes visited from
    [first_attribute()] along [next_attribute()]; the empty handle has
    none. *)
Definition attributes (node : xml_node) : list xml_attribute :=
  match node with
  | Some (make_node _ _ attrs _) => attrs
  | None => []
  end.

(** Modelled from the spec: the nodes of the range [begin(), end())]; the
    empty handle has an empty range. *)
Definition children (node : xml_node) : list xml_node_struct :=
  match node with
  | Some (make_node _ _ _ cs) => cs
  | None => []
  end.

(** Modelled from the spec: a DocumentView exposes the handle of its root
    node, [document_element()], which is empty when the document has no
    root element. *)
Record xml_document : Type := make_document
  { document_element : xml_node }.

End pugi.

(** ** Node keys *)

Module detail.
Import keys pugi.

Section Hashing.

(** [keys::GetHasher<std::string>()]. *)
Variable stringHasher : string -> Key.

(** [keys::GetHasher<keys::Key>()]. *)
Variable hash_key : Key -> Key.

(** [computeAttributesKey(node)]: [result] starts as [Key{}] and the loop
    visits the attributes in document order. *)
Definition computeAttributesKey (node : xml_node) : Key :=
  fold_left
    (fun result attributeItr =>
       combineKeysLoosely2 result
         (combineKeysUniquely hash_key
            [stringHasher (attribute_name attributeItr);
             stringHasher (attribute_value attributeItr)]))
    (attributes node) 0.

(** The body of [computeNodeKey(node)], with the recursive call on a child
    as [self]; [std::accumulate] is a left fold from [Key{}]. *)
Definition computeNodeKey_body (self : xml_node_struct -> Key)
    (node : xml_node) : Key :=
  let childrenKey :=
    fold_left
      (fun partialKey child => combineKeysLoosely2 partialKey (self child))
      (children node) 0 in
  combineKeysUniquely hash_key
    [stringHasher (name node);
     stringHasher (child_value node);
     computeAttributesKey node;
     childrenKey].

(** [computeNodeKey] at a handle that refers to a node. *)
Fixpoint computeNodeKey_at (n : xml_node_struct) : Key :=
  computeNodeKey_body computeNodeKey_at (Some n).

(** [computeNodeKey(node)] at any handle. *)
Definition computeNodeKey (node : xml_node) : Key :=
  computeNodeKey_body computeNodeKey_at node.

End Hashing.
End detail.

(** ** The document matcher *)

Section Matcher.
Import keys pugi detail.

Variable stringHasher : string -> Key.
Variable hash_key : Key -> Key.

(** [matchXMLDocumentsLoosely(lhsDocument, rhsDocument)]. *)
Definition matchXMLDocumentsLoosely (lhsDocument rhsDocument : xml_document)
    : bool :=
  let lhsDocumentKey :=
    computeNodeKey stringHasher hash_key (document_element lhsDocument) in
  let rhsDocumentKey :=
    computeNodeKey stringHasher hash_key (document_element rhsDocument) in
  lhsDocumentKey =? rhsDocumentKey.

End Matcher.

(** ** Instances of [std::hash]

    Two hashes of keys, the identity and FNV-1a over the bytes of the key,
    and one hash of strings, on which the combiners can be evaluated. *)

Module std_hash.
Import keys.

(** The identity: the value of the key is its own hash. *)
Definition identity_hash_key (k : Key) : Key := k.

Definition FNV_offset_basis : Key := 14695981039346656037.

Definition FNV_prime : Key := 1099511628211.

(** One step of FNV-1a: xor the byte in, then multiply by the prime. *)
Definition fnv1a_append_byte (val byte : Key) : Key :=
  wrap (key_xor val byte * FNV_prime).

(** The eight bytes of the object representation of a key, least
    significant first. *)
Definition key_bytes (k : Key) : list Z :=
  map (fun i => Z.land (Z.shiftr k (8 * i)) 255) [0; 1; 2; 3; 4; 5; 6; 7].

(** FNV-1a over the bytes of the key: a hash of keys that is not the
    identity. *)
Definition fnv1a_hash_key (k : Key) : Key :=
  fold_left fnv1a_append_byte (key_bytes k) FNV_offset_basis.

(** FNV-1a over the characters of a text: a hash of strings. *)
Definition fnv1a_hash_string (s : string) : Key :=
  fold_left fnv1a_append_byte
    (map (fun c => Z.of_nat (nat_of_ascii c)) (list_ascii_of_string s))
    FNV_offset_basis.

End std_hash.

(** ** Definitions that follow the words of the specification *)

Module spec.
Import keys pugi.

(** The update [acc XOR (key + MAGIC + (acc << 6) + (acc >> 2))] on
    fixed-width keys, with the key itself as the first summand. *)
Definition mix (acc key : Key) : Key :=
  Z.lxor acc (wrap (key + MAGIC + Z.shiftl acc 6 + Z.shiftr acc 2)).

(** [combineUniquely]: from a zero accumulator, one update per key in
    argument order. *)
Definition combineUniquely (ks : list Key) : Key := fold_left mix ks 0.

(** The accumulated bitwise XOR of all inputs. *)
Definition xor_all (ks : list Key) : Key := fold_right Z.lxor 0 ks.

(** Two subtrees are isomorphic up to the order of attributes and the order
    of sibling children: same tag name, same text, the same attributes in
    some order, and children that correspond one to one, in some order, to
    isomorphic children. *)
#[warnings="-register-all"] Inductive loosely_isomorphic
    : xml_node_struct -> xml_node_struct -> Prop :=
  | loosely_isomorphic_node :
      forall nm txt attrsA attrsB csA csB csB',
        Permutation attrsA attrsB ->
        Forall2 loosely_isomorphic csA csB' ->
        Permutation csB' csB ->
        loosely_isomorphic (make_node nm txt attrsA csA)
                           (make_node nm txt attrsB csB).

(** The same relation on root handles: two documents without a root
    element, or two isomorphic roots. *)
Inductive roots_isomorphic : xml_node -> xml_node -> Prop :=
  | roots_isomorphic_empty : roots_isomorphic None None
  | roots_isomorphic_nodes :
      forall a b,
        loosely_isomorphic a b -> roots_isomorphic (Some a) (Some b).

End spec.

(** ** The test harness

    Namespace [test] and [main]. What the harness touches outside the
    program is a parameter: the paths of [std::filesystem], the files behind
    them (what [xml_document::load_file] finds at a path) and the two
    hashes. The files do not change during a run, so a load is a function
    of the path. [std::cout] is the sequence of the items inserted so far,
    and a call of [std::abort] ends the run. *)

Module test.
Import keys pugi.
Local Open Scope string_scope.

(** Modelled from the spec: the result of [xml_document::load_file], of
    which the harness reads the conversion to [bool] and
    [description()]. *)
Record xml_parse_result : Type := make_parse_result
  { parse_ok : bool;
    description : string }.

(** An item inserted into [std::cout]: a text, a path or [std::endl]. *)
Inductive cout_item (fs_path : Type) : Type :=
  | cout_text (s : string)
  | cout_path (p : fs_path)
  | cout_endl.

Arguments cout_text {fs_path} s.
Arguments cout_path {fs_path} p.
Arguments cout_endl {fs_path}.

(** How a call ends: it returns a value or the program was aborted. *)
Inductive outcome (A : Type) : Type :=
  | returned (a : A)
  | aborted.

Arguments returned {A} a.
Arguments aborted {A}.

(** The line feed character, ['\n']. *)
Definition newline : string := String "010"%char EmptyString.

Section Harness.

Variable stringHasher : string -> Key.
Variable hash_key : Key -> Key.

(** [std::filesystem::path], its construction from a text and its
    [operator/] with a text on the right. *)
Variable fs_path : Type.
Variable path_of : string -> fs_path.
Variable path_append : fs_path -> string -> fs_path.

(** What [load_file] finds at a path: the parse result and the document. *)
Variable load_file : fs_path -> xml_parse_result * xml_document.

(** A call that writes to [std::cout] and may abort: from the output so
    far to its outcome and the output after it. *)
Definition io (A : Type) : Type :=
  list (cout_item fs_path) -> outcome A * list (cout_item fs_path).

Definition ret {A : Type} (a : A) : io A := fun out => (returned a, out).

Definition bind {A B : Type} (m : io A) (f : A -> io B) : io B :=
  fun out =>
    match m out with
    | (returned a, out') => f a out'
    | (aborted, out') => (aborted, out')
    end.

(** [std::cout << item1 << item2 << ...]. *)
Definition cout (items : list (cout_item fs_path)) : io unit :=
  fun out => (returned tt, (out ++ items)%list).

(** [std::abort()]. *)
Definition std_abort {A : Type} : io A := fun out => (aborted, out).

Local Notation "x <- m ;; k" := (bind m (fun x => k))
  (at level 61, m at next level, right associativity).
Local Notation "m ;; k" := (bind m (fun _ => k))
  (at level 61, right associativity).

(** [GetTestDataDirectory()]. *)
Definition GetTestDataDirectory : fs_path := path_of "test_data".

(** [loadXmlFile(xmlFile, xmlDocument)]: the document it leaves in
    [xmlDocument] is its result. *)
Definition loadXmlFile (xmlFile : string) : io xml_document :=
  let fullXmlFilePath := path_append GetTestDataDirectory xmlFile in
  let (loadResult, xmlDocument) := load_file fullXmlFilePath in
  if parse_ok loadResult then ret xmlDocument
  else
    cout [cout_text "Failed to load XML file `";
          cout_path fullXmlFilePath;
          cout_text "`: `";
          cout_text (description loadResult);
          cout_text "`";
          cout_endl] ;;
    std_abort.

(** [executeTest(lhsXmlFile, rhsXmlFile, expectedEquivalency)]. *)
Definition executeTest (lhsXmlFile rhsXmlFile : string)
    (expectedEquivalency : bool) : io unit :=
  lhsDocument <- loadXmlFile lhsXmlFile ;;
  rhsDocument <- loadXmlFile rhsXmlFile ;;
  cout [cout_text "[";
        cout_text lhsXmlFile;
        cout_text "] ";
        cout_text (if expectedEquivalency then "==" else "!=");
        cout_text " [";
        cout_text rhsXmlFile;
        cout_text "] ---> "] ;;
  if Bool.eqb
       (matchXMLDocumentsLoosely stringHasher hash_key lhsDocument rhsDocument)
       expectedEquivalency
  then cout [cout_text "PASSED"; cout_endl]
  else cout [cout_text "FAILED"; cout_endl].

(** [runTests()]. *)
Definition runTests : io unit :=
  cout [cout_text (newline ++ newline)] ;;
  executeTest "1.xml" "2.xml" true ;;
  executeTest "3.xml" "4.xml" false ;;
  executeTest "5.xml" "6.xml" true ;;
  executeTest "7.xml" "8.xml" true ;;
  executeTest "9.xml" "10.xml" true ;;
  executeTest "11.xml" "12.xml" false ;;
  executeTest "13.xml" "14.xml" true ;;
  executeTest "15.xml" "16.xml" true ;;
  executeTest "17.xml" "18.xml" false ;;
  cout [cout_text newline; cout_endl].

(** [main()]. *)
Definition main : io Z :=
  runTests ;;
  ret 0.

(** The calls of [runTests], in order: the two files and the expected
    answer of each. *)
Definition test_cases : list (string * string * bool) :=
  [("1.xml", "2.xml", true); ("3.xml", "4.xml", false);
   ("5.xml", "6.xml", true); ("7.xml", "8.xml", true);
   ("9.xml", "10.xml", true); ("11.xml", "12.xml", false);
   ("13.xml", "14.xml", true); ("15.xml", "16.xml", true);
   ("17.xml", "18.xml", false)].

(** A sequence of calls of [executeTest], followed by [rest]. *)
Fixpoint executeTests (cases : list (string * string * bool))
    (rest : io unit) : io unit :=
  match cases with
  | [] => rest
  | (lhsXmlFile, rhsXmlFile, expectedEquivalency) :: cases' =>
      executeTest lhsXmlFile rhsXmlFile expectedEquivalency ;;
      executeTests cases' rest
  end.

(** The file of that name in the test data directory loads. *)
Definition loads (xmlFile : string) : Prop :=
  parse_ok (fst (load_file (path_append GetTestDataDirectory xmlFile))) = true.

(** The document [loadXmlFile] gets from the file of that name. *)
Definition document_of (xmlFile : string) : xml_document :=
  snd (load_file (path_append GetTestDataDirectory xmlFile)).

(** The line written before the abort when the file does not load. *)
Definition failure_line (xmlFile : string) : list (cout_item fs_path) :=
  [cout_text "Failed to load XML file `";
   cout_path (path_append GetTestDataDirectory xmlFile);
   cout_text "`: `";
   cout_text
     (description (fst (load_file (path_append GetTestDataDirectory xmlFile))));
   cout_text "`";
   cout_endl].

(** What a test writes before its verdict. *)
Definition test_header (lhsXmlFile rhsXmlFile : string)
    (expectedEquivalency : bool) : list (cout_item fs_path) :=
  [cout_text "[";
   cout_text lhsXmlFile;
   cout_text "] ";
   cout_text (if expectedEquivalency then "==" else "!=");
   cout_text " [";
   cout_text rhsXmlFile;
   cout_text "] ---> "].

(** The verdict of a test whose two files load. *)
Definition verdict (lhsXmlFile rhsXmlFile : string)
    (expectedEquivalency : bool) : string :=
  if Bool.eqb
       (matchXMLDocumentsLoosely stringHasher hash_key
          (document_of lhsXmlFile) (document_of rhsXmlFile))
       expectedEquivalency
  then "PASSED" else "FAILED".

(** The whole line of a test whose two files load. *)
Definition test_line (lhsXmlFile rhsXmlFile : string)
    (expectedEquivalency : bool) : list (cout_item fs_path) :=
  (test_header lhsXmlFile rhsXmlFile expectedEquivalency
   ++ [cout_text (verdict lhsXmlFile rhsXmlFile expectedEquivalency);
       cout_endl])%list.

(** The lines of a sequence of tests whose files all load. *)
Definition report (cases : list (string * string * bool))
    : list (cout_item fs_path) :=
  flat_map (fun c => test_line (fst (fst c)) (snd (fst c)) (snd c)) cases.

(** The files a sequence of tests loads, in the order of the loads. *)
Definition files_of (cases : list (string * string * bool)) : list string :=
  flat_map (fun c => [fst (fst c); snd (fst c)]) cases.

(** The eighteen files of [runTests]. *)
Definition test_files : list string := files_of test_cases.

(** Of the two files of a test that cannot load both, the one whose load
    fails first: the left one, or the right one when the left one loads. *)
Definition culprit (lhsXmlFile rhsXmlFile : string) : string :=
  if parse_ok (fst (load_file (path_append GetTestDataDirectory lhsXmlFile)))
  then rhsXmlFile else lhsXmlFile.

End Harness.
End test.

(** ** Two sets of test data

    Paths are texts, joined with a slash. In the first set only [1.xml] and
    [2.xml] exist: [<r a="1" b="2"/>] and [<r b="2" a="1"/>]. In the second
    set every file exists and holds [<r/>]. *)

Module test_data.
Import pugi test.
Local Open Scope string_scope.

Definition path_of (s : string) : string := s.

Definition path_append (directory file : string) : string :=
  directory ++ "/" ++ file.

Definition file_was_not_found : xml_parse_result :=
  make_parse_result false "File was not found".

Definition no_error : xml_parse_result :=
  make_parse_result true "No error".

Definition two_files (path : string) : xml_parse_result * xml_document :=
  if String.eqb path "test_data/1.xml" then
    (no_error,
     make_document
       (Some (make_node "r" EmptyString
                [make_attribute "a" "1"; make_attribute "b" "2"] [])))
  else if String.eqb path "test_data/2.xml" then
    (no_error,
     make_document
       (Some (make_node "r" EmptyString
                [make_attribute "b" "2"; make_attribute "a" "1"] [])))
  else (file_was_not_found, make_document None).

Definition every_file (path : string) : xml_parse_result * xml_document :=
  (no_error, make_document (Some (make_node "r" EmptyString [] []))).

End test_data.

(** * Properties *)

Import keys pugi detail.

(** ** Fixed-width arithmetic *)

Lemma Key_modulus_pos : 0 < Key_modulus.
Proof. reflexivity. Qed.

Lemma wrap_in_range (z : Z) : in_range (wrap z).
Proof. unfold in_range, wrap. apply Z.mod_pos_bound, Key_modulus_pos. Qed.

Lemma wrap_small (z : Z) : in_range z -> wrap z = z.
Proof. unfold in_range, wrap. intros H. now apply Z.mod_small. Qed.

Lemma wrap_add_l (a b : Z) : wrap (wrap a + b) = wrap (a + b).
Proof. unfold wrap. apply Z.add_mod_idemp_l. discriminate. Qed.

Lemma wrap_add_r (a b : Z) : wrap (a + wrap b) = wrap (a + b).
Proof. unfold wrap. apply Z.add_mod_idemp_r. discriminate. Qed.

(** A sum reduced after each addition is the sum reduced once. *)
Lemma wrap_sum (a b c : Z) :
  wrap (wrap (wrap a + wrap b) + c) = wrap (a + b + c).
Proof.
  rewrite wrap_add_l, <- Z.add_assoc, wrap_add_l, Z.add_assoc.
  rewrite (Z.add_comm a), <- Z.add_assoc, wrap_add_l.
  f_equal. lia.
Qed.

(** XOR does not leave the range of keys. *)
Lemma key_xor_in_range (a b : Key) :
  in_range a -> in_range b -> in_range (key_xor a b).
Proof.
  unfold in_range, key_xor, Key_modulus, Key_bits. intros [Ha Ha'] [Hb Hb'].
  split.
  - now apply Z.lxor_nonneg.
  - destruct (Z.eq_dec (Z.lxor a b) 0) as [-> | Hnz]; [reflexivity |].
    assert (Hnn : 0 <= Z.lxor a b) by now apply Z.lxor_nonneg.
    apply Z.log2_lt_pow2; [lia |].
    eapply Z.le_lt_trans; [apply Z.log2_lxor; assumption |].
    apply Z.max_lub_lt.
    + destruct (Z.eq_dec a 0) as [-> | ?]; [reflexivity |].
      apply Z.log2_lt_pow2; lia.
    + destruct (Z.eq_dec b 0) as [-> | ?]; [reflexivity |].
      apply Z.log2_lt_pow2; lia.
Qed.

(** The mixing step sees a hashed key only through its low 64 bits. *)
Lemma mix_wrap (acc key : Key) : spec.mix acc (wrap key) = spec.mix acc key.
Proof.
  unfold spec.mix. f_equal.
  rewrite <- !Z.add_assoc. apply wrap_add_l.
Qed.

(** ** The order-sensitive combiner *)

Section UniqueCombiner.

Variable hash_key : Key -> Key.

(** One call of the implementation is the mixing step at the hash of the
    key: the intermediate reductions of the sum collapse into one. *)
Lemma combineKeysUniquelyImpl_mix (lhsKey rhsKey : Key) :
  combineKeysUniquelyImpl hash_key lhsKey rhsKey
  = spec.mix lhsKey (hash_key rhsKey).
Proof.
  unfold combineKeysUniquelyImpl, spec.mix, key_xor, key_add, key_shl, key_shr.
  f_equal. apply wrap_sum.
Qed.

Lemma combineKeysUniquely_from_fold (acc : Key) (ks : list Key) :
  combineKeysUniquely_from hash_key acc ks
  = fold_left spec.mix (map hash_key ks) acc.
Proof.
  revert acc. induction ks as [| k ks IH]; intros acc; simpl.
  - reflexivity.
  - rewrite combineKeysUniquelyImpl_mix. apply IH.
Qed.

Lemma combineKeysUniquelyImpl_in_range (lhsKey rhsKey : Key) :
  in_range lhsKey -> in_range (combineKeysUniquelyImpl hash_key lhsKey rhsKey).
Proof.
  intros H. unfold combineKeysUniquelyImpl.
  apply key_xor_in_range; [assumption | apply wrap_in_range].
Qed.

(** A unique combination is a key: it stays within 64 bits. *)
Lemma combineKeysUniquely_in_range (ks : list Key) :
  in_range (combineKeysUniquely hash_key ks).
Proof.
  unfold combineKeysUniquely.
  assert (H0 : in_range 0) by (unfold in_range; split; [lia | reflexivity]).
  revert H0. generalize 0 at 1 2. induction ks as [| k ks IH]; intros acc Hacc.
  - exact Hacc.
  - simpl. apply IH, combineKeysUniquelyImpl_in_range, Hacc.
Qed.

End UniqueCombiner.

(** With the identity as [std::hash<std::size_t>], the combiner is the fold
    of the specification on the keys themselves. *)
Lemma combineKeysUniquely_identity_hash (ks : list Key) :
  combineKeysUniquely std_hash.identity_hash_key ks = spec.combineUniquely ks.
Proof.
  unfold combineKeysUniquely, spec.combineUniquely.
  rewrite combineKeysUniquely_from_fold.
  unfold std_hash.identity_hash_key. now rewrite map_id.
Qed.

(** C3, as stated, fails: the code adds the hash of each key, not the key.
    Where [std::hash<std::size_t>] is FNV-1a over the bytes of the key, the
    combination of the single key 1 is 9929646808729020765, while the fold
    of the specification gives 1 + 0x9e3779b9 = 2654435770. *)
Lemma combineKeysUniquely_not_spec_fold_fnv1a :
  combineKeysUniquely std_hash.fnv1a_hash_key [1] = 9929646808729020765 /\
  spec.combineUniquely [1] = 2654435770 /\
  (combineKeysUniquely std_hash.fnv1a_hash_key [1] =? spec.combineUniquely [1])
  = false.
Proof. repeat split; vm_compute; reflexivity. Qed.

(** C3 (amended): for every argument list, [combineKeysUniquely] starts
    from a zero accumulator and, for each key in argument order, updates
    [acc = acc XOR (hash(key) + 0x9e3779b9 + (acc << 6) + (acc >> 2))] in
    64-bit arithmetic, where [hash] is [std::hash<std::size_t>], and returns
    the final accumulator. *)
Theorem combineKeysUniquely_hashed_fold (hash_key : Key -> Key)
    (ks : list Key) :
  combineKeysUniquely hash_key ks
  = fold_left
      (fun acc key =>
         Z.lxor acc
           (wrap (hash_key key + 0x9e3779b9 + Z.shiftl acc 6 + Z.shiftr acc 2)))
      ks 0.
Proof.
  unfold combineKeysUniquely. rewrite combineKeysUniquely_from_fold.
  generalize 0. induction ks as [| k ks IH]; intros acc; simpl.
  - reflexivity.
  - apply IH.
Qed.

(** C4, as stated, fails for [combineKeysLoosely]: its fold has no value
    for an empty pack, so there is no zero-argument call that returns the
    zero key. *)
Lemma combineKeysLoosely_no_arguments :
  combineKeysLoosely [] = None /\
  (match combineKeysLoosely [] with Some k => k =? 0 | None => false end)
  = false.
Proof. split; reflexivity. Qed.

(** C4 (amended): [combineKeysUniquely] without arguments returns the zero
    key; [combineKeysLoosely] has no instance without arguments, and zero
    is its identity when passed as a seed: zero combined with one key is
    that key. *)
Theorem combine_no_arguments (hash_key : Key -> Key) (k : Key) :
  combineKeysUniquely hash_key [] = 0 /\
  combineKeysLoosely [] = None /\
  combineKeysLoosely [0; k] = Some k.
Proof.
  repeat split.
Qed.

(** The unique combination of a single key. *)
Lemma combineKeysUniquely_single (hash_key : Key -> Key) (k : Key) :
  combineKeysUniquely hash_key [k] = wrap (hash_key k + MAGIC).
Proof.
  unfold combineKeysUniquely. rewrite combineKeysUniquely_from_fold.
  cbn [map fold_left]. unfold spec.mix.
  rewrite Z.shiftl_0_l, Z.shiftr_0_l, !Z.add_0_r.
  apply Z.lxor_0_l.
Qed.

(** Adding the constant moves every 64-bit value. *)
Lemma wrap_add_MAGIC_neq (h : Z) : wrap (h + MAGIC) <> wrap h.
Proof.
  unfold wrap, MAGIC. intros H.
  pose proof (Z.mod_pos_bound h Key_modulus Key_modulus_pos) as B.
  rewrite <- Z.add_mod_idemp_l in H by discriminate.
  set (r := h mod Key_modulus) in *.
  assert (M : Key_modulus = 18446744073709551616) by reflexivity.
  rewrite M in *.
  destruct (Z_lt_dec (r + 0x9e3779b9) 18446744073709551616) as [Hlt | Hge].
  - rewrite Z.mod_small in H by lia. lia.
  - replace (r + 0x9e3779b9)
      with ((r + 0x9e3779b9 - 18446744073709551616)
            + 1 * 18446744073709551616) in H by lia.
    rewrite Z.mod_add in H by discriminate.
    rewrite Z.mod_small in H by lia. lia.
Qed.




(** Where the hash of a key is the key (the identity hash), a single key
    is not its own unique combination. *)
Lemma combineKeysUniquely_single_identity_hash (k : Key) :
  in_range k -> combineKeysUniquely std_hash.identity_hash_key [k] <> k.
Proof.
  intros Hk E.
  apply (wrap_add_MAGIC_neq k).
  change (wrap (k + MAGIC))
    with (wrap (std_hash.identity_hash_key k + MAGIC)).
  rewrite <- combineKeysUniquely_single, E.
  symmetry. now apply wrap_small.
Qed.

(** C7: [combineKeysUniquely] is order-sensitive. Whenever
    [std::hash<std::size_t>] reaches every 64-bit value (as the identity
    does), there are keys [k1 <> k2] whose two orders combine to
    different keys. *)
Theorem combineKeysUniquely_order_sensitive (hash_key : Key -> Key) :
  (forall y, in_range y -> exists k, in_range k /\ wrap (hash_key k) = y) ->
  exists k1 k2,
    in_range k1 /\ in_range k2 /\ k1 <> k2 /\
    combineKeysUniquely hash_key [k1; k2]
    <> combineKeysUniquely hash_key [k2; k1].
Proof.
  intros Honto.
  destruct (Honto 0) as [k1 [R1 H1]]; [split; [lia | reflexivity] |].
  destruct (Honto 1) as [k2 [R2 H2]]; [split; [lia | reflexivity] |].
  exists k1, k2.
  split; [exact R1 |]. split; [exact R2 |]. split.
  - intros E. rewrite E, H2 in H1. discriminate.
  - unfold combineKeysUniquely. rewrite !combineKeysUniquely_from_fold.
    cbn [map fold_left].
    rewrite <- (mix_wrap 0 (hash_key k1)), <- (mix_wrap 0 (hash_key k2)).
    rewrite <- (mix_wrap _ (hash_key k1)), <- (mix_wrap _ (hash_key k2)).
    rewrite H1, H2. vm_compute. discriminate.
Qed.

(** C7 at the identity hash, where the keys are 0 and 1. *)
Lemma combineKeysUniquely_order_sensitive_identity :
  (forall y, in_range y ->
     exists k, in_range k /\ wrap (std_hash.identity_hash_key k) = y) /\
  exists k1 k2,
    in_range k1 /\ in_range k2 /\ k1 <> k2 /\
    combineKeysUniquely std_hash.identity_hash_key [k1; k2]
    <> combineKeysUniquely std_hash.identity_hash_key [k2; k1].
Proof.
  assert (H : forall y, in_range y ->
            exists k, in_range k /\ wrap (std_hash.identity_hash_key k) = y).
  { intros y Hy. exists y. split; [exact Hy | apply wrap_small, Hy]. }
  split; [exact H |].
  exact (combineKeysUniquely_order_sensitive std_hash.identity_hash_key H).
Defined.

(** The same holds where the hash is FNV-1a over the bytes of the key. *)
Lemma combineKeysUniquely_order_sensitive_fnv1a :
  combineKeysUniquely std_hash.fnv1a_hash_key [1; 2] = 17703700539197444106 /\
  combineKeysUniquely std_hash.fnv1a_hash_key [2; 1] = 10692572137697324173.
Proof. split; vm_compute; reflexivity. Qed.

(** ** The order-insensitive combiner *)

Lemma xor_pack_xor_all (k : Key) (ks : list Key) :
  xor_pack k ks = spec.xor_all (k :: ks).
Proof.
  revert k. induction ks as [| k' ks IH]; intros k.
  - simpl. symmetry. apply Z.lxor_0_r.
  - change (key_xor k (xor_pack k' ks) = Z.lxor k (spec.xor_all (k' :: ks))).
    now rewrite IH.
Qed.

Lemma xor_all_app (l1 l2 : list Key) :
  spec.xor_all (l1 ++ l2) = Z.lxor (spec.xor_all l1) (spec.xor_all l2).
Proof.
  induction l1 as [| k l1 IH].
  - symmetry. apply Z.lxor_0_l.
  - simpl. now rewrite IH, Z.lxor_assoc.
Qed.

(** The accumulated XOR does not depend on the order of the keys. *)
Lemma xor_all_Permutation (l1 l2 : list Key) :
  Permutation l1 l2 -> spec.xor_all l1 = spec.xor_all l2.
Proof.
  induction 1 as [| k l1 l2 _ IH | k1 k2 l | l1 l2 l3 _ IH1 _ IH2]; simpl.
  - reflexivity.
  - now rewrite IH.
  - rewrite <- (Z.lxor_assoc k1 k2), <- (Z.lxor_assoc k2 k1).
    f_equal. apply Z.lxor_comm.
  - now rewrite IH1.
Qed.

Lemma combineKeysLoosely_xor_all (ks : list Key) :
  ks <> [] -> combineKeysLoosely ks = Some (spec.xor_all ks).
Proof.
  destruct ks as [| k ks]; [congruence |].
  intros _. simpl. f_equal. apply xor_pack_xor_all.
Qed.

(** C2: on every pack that has a first key, [combineKeysLoosely] is the
    accumulated bitwise XOR of its inputs; its result is the same for every
    permutation of the inputs, and the same after a zero-valued input is
    inserted anywhere among them. *)
Theorem combineKeysLoosely_xor_invariant (key : Key)
    (rest keys' before after : list Key) :
  Permutation (key :: rest) keys' ->
  before ++ after = key :: rest ->
  combineKeysLoosely (key :: rest) = Some (spec.xor_all (key :: rest)) /\
  combineKeysLoosely keys' = combineKeysLoosely (key :: rest) /\
  combineKeysLoosely (before ++ 0 :: after) = combineKeysLoosely (key :: rest).
Proof.
  intros Hperm Hsplit.
  assert (H0 : combineKeysLoosely (key :: rest)
               = Some (spec.xor_all (key :: rest)))
    by (apply combineKeysLoosely_xor_all; discriminate).
  split; [exact H0 |]. rewrite H0. split.
  - rewrite combineKeysLoosely_xor_all.
    + f_equal. symmetry. now apply xor_all_Permutation.
    + intros ->. apply Permutation_sym in Hperm.
      exact (Permutation_nil_cons Hperm).
  - rewrite combineKeysLoosely_xor_all by (now destruct before).
    f_equal. rewrite <- Hsplit, !xor_all_app.
    reflexivity.
Qed.

(** C2 at the keys 3, 5, 6: reordered to 6, 3, 5, and with a zero inserted
    after the first. *)
Lemma combineKeysLoosely_xor_invariant_example :
  combineKeysLoosely [3; 5; 6] = Some (spec.xor_all [3; 5; 6]) /\
  combineKeysLoosely [6; 3; 5] = combineKeysLoosely [3; 5; 6] /\
  combineKeysLoosely ([3] ++ 0 :: [5; 6]) = combineKeysLoosely [3; 5; 6].
Proof.
  apply (combineKeysLoosely_xor_invariant 3 [5; 6] [6; 3; 5] [3] [5; 6]).
  - apply Permutation_sym, (Permutation_cons_app [3; 5] [] 6), Permutation_refl.
  - reflexivity.
Defined.

(** ** Attribute keys and node keys *)

(** Every subtree property follows from the same property of its children. *)
Lemma xml_node_struct_induction (P : xml_node_struct -> Prop) :
  (forall nm txt attrs cs, Forall P cs -> P (make_node nm txt attrs cs)) ->
  forall n, P n.
Proof.
  intros step. fix IH 1. intros [nm txt attrs cs]. apply step.
  induction cs as [| c cs IHcs]; constructor; [apply IH | exact IHcs].
Qed.

(** A left fold of two-argument loose combinations XORs the seed with the
    accumulated XOR of the folded keys. *)
Lemma fold_left_combineKeysLoosely2 {A : Type} (f : A -> Key) (l : list A)
    (seed : Key) :
  fold_left (fun partialKey x => combineKeysLoosely2 partialKey (f x)) l seed
  = Z.lxor seed (spec.xor_all (map f l)).
Proof.
  revert seed. induction l as [| x l IH]; intros seed; simpl.
  - symmetry. apply Z.lxor_0_r.
  - rewrite IH. unfold combineKeysLoosely2, key_xor. simpl.
    apply Z.lxor_assoc.
Qed.

Section NodeKeys.

Variable stringHasher : string -> Key.
Variable hash_key : Key -> Key.

Local Abbreviation attributesKey := (computeAttributesKey stringHasher hash_key).
Local Abbreviation nodeKey := (computeNodeKey stringHasher hash_key).
Local Abbreviation matchLoosely := (matchXMLDocumentsLoosely stringHasher hash_key).

(** The attributes key is the accumulated XOR of the attributes' keys. *)
Lemma computeAttributesKey_xor_all (node : xml_node) :
  attributesKey node
  = spec.xor_all
      (map (fun a => combineKeysUniquely hash_key
                       [stringHasher (attribute_name a);
                        stringHasher (attribute_value a)])
           (attributes node)).
Proof.
  unfold computeAttributesKey.
  now rewrite fold_left_combineKeysLoosely2.
Qed.

Lemma computeNodeKey_at_handle (n : xml_node_struct) :
  computeNodeKey_at stringHasher hash_key n = nodeKey (Some n).
Proof. destruct n. reflexivity. Qed.

(** The equation of [computeNodeKey], with the children fold as an
    accumulated XOR of the children's own keys. *)
Lemma computeNodeKey_unfold (node : xml_node) :
  nodeKey node
  = combineKeysUniquely hash_key
      [stringHasher (name node);
       stringHasher (child_value node);
       attributesKey node;
       spec.xor_all (map (fun c => nodeKey (Some c)) (children node))].
Proof.
  unfold computeNodeKey at 1, computeNodeKey_body.
  rewrite fold_left_combineKeysLoosely2, Z.lxor_0_l.
  now rewrite (map_ext _ _ computeNodeKey_at_handle).
Qed.

(** The equation of [computeNodeKey] as the source writes it: the
    recursive call is [computeNodeKey] itself, at the handle of each
    child. *)
Lemma computeNodeKey_equation (node : xml_node) :
  nodeKey node
  = let childrenKey :=
      fold_left
        (fun partialKey child =>
           combineKeysLoosely2 partialKey (nodeKey (Some child)))
        (children node) 0 in
    combineKeysUniquely hash_key
      [stringHasher (name node);
       stringHasher (child_value node);
       attributesKey node;
       childrenKey].
Proof.
  cbv zeta. rewrite fold_left_combineKeysLoosely2, Z.lxor_0_l.
  apply computeNodeKey_unfold.
Qed.

(** Node keys and attribute keys are keys: they stay within 64 bits. *)
Lemma computeNodeKey_in_range (node : xml_node) : in_range (nodeKey node).
Proof. rewrite computeNodeKey_unfold. apply combineKeysUniquely_in_range. Qed.

(** The matcher answers exactly whether the two root keys are equal. *)
Lemma matchXMLDocumentsLoosely_true_iff (lhsDocument rhsDocument : xml_document) :
  matchLoosely lhsDocument rhsDocument = true
  <-> nodeKey (document_element lhsDocument)
      = nodeKey (document_element rhsDocument).
Proof. unfold matchXMLDocumentsLoosely. apply Z.eqb_eq. Qed.

(** Nodes that differ only in the order of their attributes or in a
    rearrangement of children that keeps the accumulated XOR of the
    children's keys have the same key. *)
Lemma computeNodeKey_congruence nm txt attrs attrs' cs cs' :
  Permutation attrs attrs' ->
  spec.xor_all (map (fun c => nodeKey (Some c)) cs)
  = spec.xor_all (map (fun c => nodeKey (Some c)) cs') ->
  nodeKey (Some (make_node nm txt attrs cs))
  = nodeKey (Some (make_node nm txt attrs' cs')).
Proof.
  intros Hattrs Hcs. rewrite !computeNodeKey_unfold.
  rewrite !computeAttributesKey_xor_all. cbn [name child_value attributes children].
  rewrite Hcs. do 4 f_equal.
  apply xor_all_Permutation, Permutation_map, Hattrs.
Qed.

End NodeKeys.

(** C5: the attributes key of a node does not change under any permutation
    of the node's attributes, and it is the zero key for a node without
    attributes. *)
Theorem computeAttributesKey_attribute_order
    (stringHasher : string -> Key) (hash_key : Key -> Key)
    (nm txt : string) (attrs attrs' : list xml_attribute)
    (cs : list xml_node_struct) :
  Permutation attrs attrs' ->
  computeAttributesKey stringHasher hash_key
    (Some (make_node nm txt attrs' cs))
  = computeAttributesKey stringHasher hash_key
      (Some (make_node nm txt attrs cs)) /\
  computeAttributesKey stringHasher hash_key (Some (make_node nm txt [] cs))
  = 0.
Proof.
  intros Hperm. split; [| reflexivity].
  rewrite !computeAttributesKey_xor_all. cbn [attributes].
  symmetry. apply xor_all_Permutation, Permutation_map, Hperm.
Qed.

(** C5 at the node [<r a="1" b="2"/>] and its reordering
    [<r b="2" a="1"/>], with FNV-1a hashes. *)
Lemma computeAttributesKey_attribute_order_example :
  computeAttributesKey std_hash.fnv1a_hash_string std_hash.fnv1a_hash_key
    (Some (make_node "r"%string EmptyString [make_attribute "b"%string "2"%string; make_attribute "a"%string "1"%string] []))
  = computeAttributesKey std_hash.fnv1a_hash_string std_hash.fnv1a_hash_key
      (Some (make_node "r"%string EmptyString [make_attribute "a"%string "1"%string; make_attribute "b"%string "2"%string] []))
  /\
  computeAttributesKey std_hash.fnv1a_hash_string std_hash.fnv1a_hash_key
    (Some (make_node "r"%string EmptyString [] []))
  = 0.
Proof.
  apply (computeAttributesKey_attribute_order
           std_hash.fnv1a_hash_string std_hash.fnv1a_hash_key "r"%string EmptyString
           [make_attribute "a"%string "1"%string; make_attribute "b"%string "2"%string]
           [make_attribute "b"%string "2"%string; make_attribute "a"%string "1"%string] []).
  apply perm_swap.
Defined.

(** C6: swapping the two children of a node leaves the key of the node
    unchanged. *)
Theorem computeNodeKey_sibling_order
    (stringHasher : string -> Key) (hash_key : Key -> Key)
    (nm txt : string) (attrs : list xml_attribute) (c1 c2 : xml_node_struct) :
  computeNodeKey stringHasher hash_key (Some (make_node nm txt attrs [c1; c2]))
  = computeNodeKey stringHasher hash_key (Some (make_node nm txt attrs [c2; c1])).
Proof.
  apply computeNodeKey_congruence; [apply Permutation_refl |].
  apply xor_all_Permutation, Permutation_map, perm_swap.
Qed.

(** C10: the key of the empty handle is the key of a node with empty name,
    empty text, no attributes and no children, and two documents without a
    root element match. *)
Theorem computeNodeKey_empty_handle
    (stringHasher : string -> Key) (hash_key : Key -> Key) :
  computeNodeKey stringHasher hash_key None
  = computeNodeKey stringHasher hash_key (Some (make_node EmptyString EmptyString [] [])) /\
  computeNodeKey stringHasher hash_key None
  = combineKeysUniquely hash_key
      [stringHasher EmptyString; stringHasher EmptyString; 0; 0] /\
  matchXMLDocumentsLoosely stringHasher hash_key
    (make_document None) (make_document None) = true.
Proof.
  split; [reflexivity |]. split; [reflexivity |].
  apply matchXMLDocumentsLoosely_true_iff. reflexivity.
Qed.

(** ** Cancellation of repeated children *)

(** In an accumulated XOR of keys, the occurrences of one subtree cancel in
    pairs: what is left of them is one key when their number is odd. *)
Lemma xor_all_remove (f : xml_node_struct -> Key) (c : xml_node_struct)
    (cs : list xml_node_struct) :
  spec.xor_all (map f cs)
  = Z.lxor
      (if Nat.even (count_occ xml_node_struct_eq_dec cs c) then 0 else f c)
      (spec.xor_all (map f (remove xml_node_struct_eq_dec c cs))).
Proof.
  induction cs as [| x cs IH].
  - reflexivity.
  - cbn [map spec.xor_all fold_right count_occ remove].
    fold (spec.xor_all (map f cs)). rewrite IH.
    destruct (xml_node_struct_eq_dec x c) as [-> | Hneq].
    + destruct (xml_node_struct_eq_dec c c) as [_ | Hcc];
        [| exfalso; apply Hcc; reflexivity].
      rewrite Nat.even_succ, <- Nat.negb_even.
      destruct (Nat.even (count_occ xml_node_struct_eq_dec cs c)); cbn [negb].
      * now rewrite Z.lxor_0_l.
      * now rewrite <- Z.lxor_assoc, Z.lxor_nilpotent.
    + destruct (xml_node_struct_eq_dec c x) as [E | _];
        [symmetry in E; contradiction |].
      cbn [map spec.xor_all fold_right].
      fold (spec.xor_all (map f (remove xml_node_struct_eq_dec c cs))).
      rewrite <- !Z.lxor_assoc. f_equal. apply Z.lxor_comm.
Qed.

(** A node with two children is not isomorphic to one without children. *)
Lemma two_children_not_isomorphic_to_none nm txt attrs nm' txt' attrs'
    (c1 c2 : xml_node_struct) :
  ~ spec.loosely_isomorphic (make_node nm txt attrs [c1; c2])
                            (make_node nm' txt' attrs' []).
Proof.
  intros Hiso.
  inversion Hiso as [? ? ? ? ? ? csB' _ Hcs Hperm]; subst.
  apply Permutation_sym, Permutation_nil in Hperm. subst csB'.
  inversion Hcs.
Qed.

(** C8: children with equal subtrees cancel in the XOR fold. A node whose
    children contain a subtree [c] an even number of times has the key of
    the same node without those occurrences; a node with exactly the two
    children [c], [c] has the key of that node without children; and the
    matcher answers true on each such pair of trees, although the trees
    of the second pair are not isomorphic. *)
Theorem computeNodeKey_repeated_children_cancel
    (stringHasher : string -> Key) (hash_key : Key -> Key)
    (nm txt : string) (attrs : list xml_attribute)
    (cs : list xml_node_struct) (c : xml_node_struct) :
  Nat.even (count_occ xml_node_struct_eq_dec cs c) = true ->
  computeNodeKey stringHasher hash_key (Some (make_node nm txt attrs cs))
  = computeNodeKey stringHasher hash_key
      (Some (make_node nm txt attrs (remove xml_node_struct_eq_dec c cs))) /\
  matchXMLDocumentsLoosely stringHasher hash_key
    (make_document (Some (make_node nm txt attrs cs)))
    (make_document
       (Some (make_node nm txt attrs (remove xml_node_struct_eq_dec c cs))))
  = true /\
  computeNodeKey stringHasher hash_key (Some (make_node nm txt attrs [c; c]))
  = computeNodeKey stringHasher hash_key (Some (make_node nm txt attrs [])) /\
  matchXMLDocumentsLoosely stringHasher hash_key
    (make_document (Some (make_node nm txt attrs [c; c])))
    (make_document (Some (make_node nm txt attrs [])))
  = true /\
  ~ spec.loosely_isomorphic (make_node nm txt attrs [c; c])
                            (make_node nm txt attrs []).
Proof.
  intros Heven.
  assert (Hcs : computeNodeKey stringHasher hash_key
                  (Some (make_node nm txt attrs cs))
                = computeNodeKey stringHasher hash_key
                    (Some (make_node nm txt attrs
                             (remove xml_node_struct_eq_dec c cs)))).
  { apply computeNodeKey_congruence; [apply Permutation_refl |].
    rewrite (xor_all_remove _ c cs), Heven. apply Z.lxor_0_l. }
  assert (Hcc : computeNodeKey stringHasher hash_key
                  (Some (make_node nm txt attrs [c; c]))
                = computeNodeKey stringHasher hash_key
                    (Some (make_node nm txt attrs []))).
  { apply computeNodeKey_congruence; [apply Permutation_refl |].
    cbn [map spec.xor_all fold_right].
    now rewrite Z.lxor_0_r, Z.lxor_nilpotent. }
  split; [exact Hcs |]. split.
  - apply matchXMLDocumentsLoosely_true_iff. exact Hcs.
  - split; [exact Hcc |]. split.
    + apply matchXMLDocumentsLoosely_true_iff. exact Hcc.
    + apply two_children_not_isomorphic_to_none.
Qed.

(** C8 at [<r><x/><y/><x/></r>], whose two [<x/>] children cancel: it has
    the key of [<r><y/></r>]. *)
Lemma computeNodeKey_repeated_children_cancel_example :
  let x := make_node "x"%string EmptyString [] [] in
  let y := make_node "y"%string EmptyString [] [] in
  let r := make_node "r"%string EmptyString [] in
  remove xml_node_struct_eq_dec x [x; y; x] = [y] /\
  computeNodeKey std_hash.fnv1a_hash_string std_hash.fnv1a_hash_key
    (Some (r [x; y; x]))
  = computeNodeKey std_hash.fnv1a_hash_string std_hash.fnv1a_hash_key
      (Some (r [y])) /\
  matchXMLDocumentsLoosely std_hash.fnv1a_hash_string std_hash.fnv1a_hash_key
    (make_document (Some (r [x; y; x]))) (make_document (Some (r [y])))
  = true.
Proof.
  intros x y r. split; [reflexivity |].
  pose proof (computeNodeKey_repeated_children_cancel
                std_hash.fnv1a_hash_string std_hash.fnv1a_hash_key
                "r"%string EmptyString [] [x; y; x] x eq_refl) as H.
  split; [exact (proj1 H) | exact (proj1 (proj2 H))].
Defined.

(** ** Trees that differ only in attribute order and sibling order *)

(** Isomorphic subtrees have the same key. *)
Lemma computeNodeKey_loosely_isomorphic
    (stringHasher : string -> Key) (hash_key : Key -> Key)
    (a b : xml_node_struct) :
  spec.loosely_isomorphic a b ->
  computeNodeKey stringHasher hash_key (Some a)
  = computeNodeKey stringHasher hash_key (Some b).
Proof.
  revert b. induction a as [nm txt attrsA csA IH] using xml_node_struct_induction.
  intros b Hiso.
  inversion Hiso as [nm' txt' attrsA' attrsB csA' csB csB' Hattrs Hcs Hperm];
    subst.
  apply computeNodeKey_congruence; [exact Hattrs |].
  transitivity
    (spec.xor_all
       (map (fun c => computeNodeKey stringHasher hash_key (Some c)) csB')).
  - f_equal. clear Hiso Hperm.
    induction Hcs as [| cA cB csA csB' HcAB _ IHcs]; [reflexivity |].
    cbn [map]. inversion IH as [| ? ? IHc IHrest]; subst.
    f_equal; [apply IHc, HcAB | apply IHcs, IHrest].
  - apply xor_all_Permutation, Permutation_map, Hperm.
Qed.

(** Every subtree is isomorphic to itself. *)
Lemma loosely_isomorphic_refl (a : xml_node_struct) :
  spec.loosely_isomorphic a a.
Proof.
  induction a as [nm txt attrs cs IH] using xml_node_struct_induction.
  apply spec.loosely_isomorphic_node with (csB' := cs);
    [apply Permutation_refl | | apply Permutation_refl].
  induction IH; constructor; assumption.
Qed.

(** C1: the matcher answers true on every pair of documents whose roots are
    isomorphic up to the order of attributes and the order of sibling
    children, and its answer is the test that the two root keys are equal. *)
Theorem matchXMLDocumentsLoosely_isomorphic
    (stringHasher : string -> Key) (hash_key : Key -> Key)
    (docA docB : xml_document) :
  (spec.roots_isomorphic (document_element docA) (document_element docB) ->
   matchXMLDocumentsLoosely stringHasher hash_key docA docB = true) /\
  matchXMLDocumentsLoosely stringHasher hash_key docA docB
  = (computeNodeKey stringHasher hash_key (document_element docA)
     =? computeNodeKey stringHasher hash_key (document_element docB)).
Proof.
  split; [| reflexivity].
  intros Hiso. apply matchXMLDocumentsLoosely_true_iff.
  destruct Hiso as [| a b Hab]; [reflexivity |].
  now apply computeNodeKey_loosely_isomorphic.
Qed.

(** C1 at [<r a="1" b="2"><x/><y/></r>] and
    [<r b="2" a="1"><y/><x/></r>], with FNV-1a hashes. *)
Lemma matchXMLDocumentsLoosely_isomorphic_example :
  let x := make_node "x"%string EmptyString [] [] in
  let y := make_node "y"%string EmptyString [] [] in
  let a := make_attribute "a"%string "1"%string in
  let b := make_attribute "b"%string "2"%string in
  let docA := make_document (Some (make_node "r"%string EmptyString [a; b] [x; y])) in
  let docB := make_document (Some (make_node "r"%string EmptyString [b; a] [y; x])) in
  spec.roots_isomorphic (document_element docA) (document_element docB) /\
  matchXMLDocumentsLoosely std_hash.fnv1a_hash_string std_hash.fnv1a_hash_key
    docA docB = true.
Proof.
  intros x y a b docA docB.
  assert (Hiso : spec.roots_isomorphic (document_element docA)
                                       (document_element docB)).
  { apply spec.roots_isomorphic_nodes.
    apply spec.loosely_isomorphic_node with (csB' := [x; y]).
    - apply perm_swap.
    - repeat constructor; apply loosely_isomorphic_refl.
    - apply perm_swap. }
  split; [exact Hiso |].
  exact (proj1 (matchXMLDocumentsLoosely_isomorphic
                  std_hash.fnv1a_hash_string std_hash.fnv1a_hash_key
                  docA docB) Hiso).
Defined.

(** ** The matcher on small documents

    The hashes are FNV-1a; a leaf is a node without text, attributes or
    children. *)

Section Scenarios.
Local Open Scope string_scope.

Let leaf (nm : string) : xml_node_struct := make_node nm EmptyString [] [].

Let document (root : xml_node_struct) : xml_document :=
  make_document (Some root).

Let matchLoosely : xml_document -> xml_document -> bool :=
  matchXMLDocumentsLoosely std_hash.fnv1a_hash_string std_hash.fnv1a_hash_key.

(** [<r a="1"/>] and [<r a="2"/>] do not match. *)
Example attribute_value_differs :
  matchLoosely
    (document (make_node "r" EmptyString [make_attribute "a" "1"] []))
    (document (make_node "r" EmptyString [make_attribute "a" "2"] []))
  = false.
Proof. vm_compute. reflexivity. Qed.

(** [<r>hello</r>] and [<r>world</r>] do not match. *)
Example text_differs :
  matchLoosely (document (make_node "r" "hello" [] []))
               (document (make_node "r" "world" [] []))
  = false.
Proof. vm_compute. reflexivity. Qed.

(** [<r><x/></r>] and [<r><x/><x/></r>] do not match: one [<x/>] is left
    on one side, none on the other. *)
Example one_child_against_two :
  matchLoosely (document (make_node "r" EmptyString [] [leaf "x"]))
               (document (make_node "r" EmptyString [] [leaf "x"; leaf "x"]))
  = false.
Proof. vm_compute. reflexivity. Qed.

(** [<r><x/><x/></r>] and [<r/>] match. *)
Example two_children_against_none :
  matchLoosely (document (make_node "r" EmptyString [] [leaf "x"; leaf "x"]))
               (document (leaf "r"))
  = true.
Proof. vm_compute. reflexivity. Qed.

(** A name and a value are not interchangeable: [<r a="b"/>] and
    [<r b="a"/>] do not match. *)
Example attribute_name_and_value_swapped :
  matchLoosely
    (document (make_node "r" EmptyString [make_attribute "a" "b"] []))
    (document (make_node "r" EmptyString [make_attribute "b" "a"] []))
  = false.
Proof. vm_compute. reflexivity. Qed.

End Scenarios.

(** * Further properties of the combiners and of the keys *)

(** ** Sensitivity of the order-sensitive combiner to its last key *)

(** XOR with a fixed key is injective. *)
Lemma lxor_cancel_l (a b c : Z) : Z.lxor a b = Z.lxor a c -> b = c.
Proof.
  intros H.
  rewrite <- (Z.lxor_0_l b), <- (Z.lxor_0_l c), <- (Z.lxor_nilpotent a).
  rewrite !Z.lxor_assoc. now f_equal.
Qed.

(** Adding the same amount to two integers keeps them apart or together
    modulo 2^64. *)
Lemma wrap_add_cancel_r (a b c : Z) :
  wrap (a + c) = wrap (b + c) <-> wrap a = wrap b.
Proof.
  split; intros H.
  - assert (E : forall z, wrap (wrap (z + c) - c) = wrap z).
    { intros z. unfold wrap. rewrite Zminus_mod_idemp_l. f_equal. lia. }
    rewrite <- (E a), <- (E b). now rewrite H.
  - rewrite <- (wrap_add_l a), <- (wrap_add_l b). now rewrite H.
Qed.

(** A single key is its own unique combination exactly when its hash is
    the key minus the constant, modulo 2^64. *)
Lemma combineKeysUniquely_single_fixed_iff (hash_key : Key -> Key) (k : Key) :
  in_range k ->
  combineKeysUniquely hash_key [k] = k
  <-> wrap (hash_key k) = wrap (k - MAGIC).
Proof.
  intros Hk. rewrite combineKeysUniquely_single.
  rewrite <- (wrap_add_cancel_r (hash_key k) (k - MAGIC) MAGIC).
  replace (k - MAGIC + MAGIC) with k by lia.
  now rewrite (wrap_small k Hk).
Qed.

(** For a fixed accumulator, the mixing step separates exactly the hashed
    keys that differ in their low 64 bits. *)
Lemma mix_injective (acc x y : Key) :
  spec.mix acc x = spec.mix acc y <-> wrap x = wrap y.
Proof.
  unfold spec.mix. split; intros H.
  - apply lxor_cancel_l in H.
    replace (x + MAGIC + Z.shiftl acc 6 + Z.shiftr acc 2)
      with (x + (MAGIC + Z.shiftl acc 6 + Z.shiftr acc 2)) in H by lia.
    replace (y + MAGIC + Z.shiftl acc 6 + Z.shiftr acc 2)
      with (y + (MAGIC + Z.shiftl acc 6 + Z.shiftr acc 2)) in H by lia.
    now apply wrap_add_cancel_r in H.
  - f_equal.
    replace (x + MAGIC + Z.shiftl acc 6 + Z.shiftr acc 2)
      with (x + (MAGIC + Z.shiftl acc 6 + Z.shiftr acc 2)) by lia.
    replace (y + MAGIC + Z.shiftl acc 6 + Z.shiftr acc 2)
      with (y + (MAGIC + Z.shiftl acc 6 + Z.shiftr acc 2)) by lia.
    now apply wrap_add_cancel_r.
Qed.

Lemma combineKeysUniquely_snoc (hash_key : Key -> Key) (ks : list Key)
    (k : Key) :
  combineKeysUniquely hash_key (ks ++ [k])
  = spec.mix (combineKeysUniquely hash_key ks) (hash_key k).
Proof.
  unfold combineKeysUniquely. rewrite !combineKeysUniquely_from_fold.
  now rewrite map_app, fold_left_app.
Qed.

(** X1: two unique combinations that differ only in their last key are
    equal exactly when the hashes of the two last keys agree on 64 bits:
    a change of the last key is never lost by the mixing itself. *)
Theorem combineKeysUniquely_last_key (hash_key : Key -> Key)
    (ks : list Key) (x y : Key) :
  combineKeysUniquely hash_key (ks ++ [x])
  = combineKeysUniquely hash_key (ks ++ [y])
  <-> wrap (hash_key x) = wrap (hash_key y).
Proof. rewrite !combineKeysUniquely_snoc. apply mix_injective. Qed.

(** ** Keys stay within 64 bits *)

Lemma in_range_0 : in_range 0.
Proof. unfold in_range. split; [lia | reflexivity]. Qed.

Lemma xor_all_in_range (ks : list Key) :
  Forall in_range ks -> in_range (spec.xor_all ks).
Proof.
  induction 1 as [| k ks Hk _ IH]; [exact in_range_0 |].
  simpl. now apply key_xor_in_range.
Qed.

Lemma computeAttributesKey_in_range
    (stringHasher : string -> Key) (hash_key : Key -> Key) (node : xml_node) :
  in_range (computeAttributesKey stringHasher hash_key node).
Proof.
  rewrite computeAttributesKey_xor_all. apply xor_all_in_range.
  apply Forall_forall. intros k Hk. apply in_map_iff in Hk.
  destruct Hk as [a [<- _]]. apply combineKeysUniquely_in_range.
Qed.

(** X2: whatever the two hashes return, also values beyond 64 bits, every
    unique combination, every attributes key and every node key is a key:
    it lies in [0, 2^64); and the loose combination of keys is a key. *)
Theorem keys_stay_in_range
    (stringHasher : string -> Key) (hash_key : Key -> Key)
    (ks : list Key) (node : xml_node) :
  in_range (combineKeysUniquely hash_key ks) /\
  in_range (computeAttributesKey stringHasher hash_key node) /\
  in_range (computeNodeKey stringHasher hash_key node) /\
  (Forall in_range ks ->
   match combineKeysLoosely ks with
   | Some k => in_range k
   | None => ks = []
   end).
Proof.
  split; [apply combineKeysUniquely_in_range |].
  split; [apply computeAttributesKey_in_range |].
  split; [apply computeNodeKey_in_range |].
  intros Hks. destruct ks as [| k ks]; [reflexivity |].
  cbn [combineKeysLoosely]. rewrite xor_pack_xor_all.
  now apply xor_all_in_range.
Qed.

(** ** The loops and the variadic combiner *)

Lemma fold_left_combineKeysLoosely2_id (ks : list Key) (seed : Key) :
  fold_left combineKeysLoosely2 ks seed = Z.lxor seed (spec.xor_all ks).
Proof.
  rewrite <- (map_id ks) at 2.
  rewrite <- (fold_left_combineKeysLoosely2 (fun k => k)). reflexivity.
Qed.

(** X3: folding the two-argument loose combination from a zero seed, as
    the loops of the program do, gives what one variadic call on all the
    keys gives; so the attributes key of a node with attributes is the
    loose combination of the keys of its attributes. *)
Theorem loose_fold_is_variadic
    (stringHasher : string -> Key) (hash_key : Key -> Key)
    (k : Key) (ks : list Key)
    (nm txt : string) (a : xml_attribute) (attrs : list xml_attribute)
    (cs : list xml_node_struct) :
  Some (fold_left combineKeysLoosely2 (k :: ks) 0)
  = combineKeysLoosely (k :: ks) /\
  Some (computeAttributesKey stringHasher hash_key
          (Some (make_node nm txt (a :: attrs) cs)))
  = combineKeysLoosely
      (map (fun attribute =>
              combineKeysUniquely hash_key
                [stringHasher (attribute_name attribute);
                 stringHasher (attribute_value attribute)])
           (a :: attrs)).
Proof.
  split.
  - rewrite fold_left_combineKeysLoosely2_id, Z.lxor_0_l.
    cbn [combineKeysLoosely]. now rewrite xor_pack_xor_all.
  - rewrite computeAttributesKey_xor_all. cbn [attributes map].
    cbn [combineKeysLoosely]. now rewrite xor_pack_xor_all.
Qed.

(** ** Attribute lists *)

Section AttributeLists.

Variable stringHasher : string -> Key.
Variable hash_key : Key -> Key.

Local Abbreviation attributesKey := (computeAttributesKey stringHasher hash_key).
Local Abbreviation nodeKey := (computeNodeKey stringHasher hash_key).

(** The key of one attribute, as the loop of [computeAttributesKey]
    computes it. *)
Local Abbreviation keyOf :=
  (fun a : xml_attribute =>
     combineKeysUniquely hash_key
       [stringHasher (attribute_name a); stringHasher (attribute_value a)]).

Lemma computeAttributesKey_app nm txt (l1 l2 : list xml_attribute) cs :
  attributesKey (Some (make_node nm txt (l1 ++ l2) cs))
  = key_xor (attributesKey (Some (make_node nm txt l1 cs)))
            (attributesKey (Some (make_node nm txt l2 cs))).
Proof.
  rewrite !computeAttributesKey_xor_all. cbn [attributes].
  now rewrite map_app, xor_all_app.
Qed.

(** The key of an attribute separates exactly the values whose hashes
    differ, once hashed again as keys. *)
Lemma keyOf_value (n v v' : string) :
  keyOf (make_attribute n v) = keyOf (make_attribute n v')
  <-> wrap (hash_key (stringHasher v)) = wrap (hash_key (stringHasher v')).
Proof.
  cbn [attribute_name attribute_value].
  change [stringHasher n; stringHasher v]
    with ([stringHasher n] ++ [stringHasher v]).
  change [stringHasher n; stringHasher v']
    with ([stringHasher n] ++ [stringHasher v']).
  rewrite !combineKeysUniquely_snoc. apply mix_injective.
Qed.

End AttributeLists.

(** X4: the attributes key of a node whose attribute list is one list
    followed by another is the XOR of the attributes keys of the two lists.
    Hence an attribute list that repeats itself has the zero key, and the
    node has the key of the same node without attributes. *)
Theorem computeAttributesKey_append
    (stringHasher : string -> Key) (hash_key : Key -> Key)
    (nm txt : string) (l1 l2 : list xml_attribute)
    (cs : list xml_node_struct) :
  computeAttributesKey stringHasher hash_key
    (Some (make_node nm txt (l1 ++ l2) cs))
  = key_xor
      (computeAttributesKey stringHasher hash_key (Some (make_node nm txt l1 cs)))
      (computeAttributesKey stringHasher hash_key (Some (make_node nm txt l2 cs)))
  /\
  computeAttributesKey stringHasher hash_key
    (Some (make_node nm txt (l1 ++ l1) cs)) = 0 /\
  computeNodeKey stringHasher hash_key (Some (make_node nm txt (l1 ++ l1) cs))
  = computeNodeKey stringHasher hash_key (Some (make_node nm txt [] cs)).
Proof.
  split; [apply computeAttributesKey_app |].
  assert (H0 : computeAttributesKey stringHasher hash_key
                 (Some (make_node nm txt (l1 ++ l1) cs)) = 0).
  { rewrite computeAttributesKey_app. apply Z.lxor_nilpotent. }
  split; [exact H0 |].
  rewrite !computeNodeKey_unfold. cbn [name child_value children].
  now rewrite H0.
Qed.

(** X5: changing the value of one attribute of a node, wherever it stands
    among the others, leaves the attributes key unchanged exactly when the
    hashes of the old and the new value, hashed again as keys, agree on 64
    bits: short of such a collision the change is always seen. *)
Theorem computeAttributesKey_value_change
    (stringHasher : string -> Key) (hash_key : Key -> Key)
    (nm txt : string) (before after : list xml_attribute)
    (n v v' : string) (cs : list xml_node_struct) :
  computeAttributesKey stringHasher hash_key
    (Some (make_node nm txt (before ++ make_attribute n v :: after) cs))
  = computeAttributesKey stringHasher hash_key
      (Some (make_node nm txt (before ++ make_attribute n v' :: after) cs))
  <-> wrap (hash_key (stringHasher v)) = wrap (hash_key (stringHasher v')).
Proof.
  rewrite !computeAttributesKey_xor_all. cbn [attributes].
  rewrite !map_app, !xor_all_app. cbn [map spec.xor_all fold_right].
  rewrite <- (keyOf_value stringHasher hash_key n v v').
  split; intros H.
  - apply lxor_cancel_l in H.
    rewrite (Z.lxor_comm (combineKeysUniquely _ _)) in H.
    rewrite (Z.lxor_comm (combineKeysUniquely _ _)) in H.
    now apply lxor_cancel_l in H.
  - now rewrite H.
Qed.

(** ** Children lists *)

(** Nodes that differ only in their children: their keys are compared
    through the hashes of the accumulated XOR of the children's keys. *)
Lemma computeNodeKey_children_iff
    (stringHasher : string -> Key) (hash_key : Key -> Key)
    (nm txt : string) (attrs : list xml_attribute)
    (cs cs' : list xml_node_struct) :
  computeNodeKey stringHasher hash_key (Some (make_node nm txt attrs cs))
  = computeNodeKey stringHasher hash_key (Some (make_node nm txt attrs cs'))
  <-> wrap (hash_key
              (spec.xor_all
                 (map (fun c => computeNodeKey stringHasher hash_key (Some c))
                      cs)))
      = wrap (hash_key
                (spec.xor_all
                   (map (fun c => computeNodeKey stringHasher hash_key (Some c))
                        cs'))).
Proof.
  rewrite (computeNodeKey_unfold _ _ (Some (make_node nm txt attrs cs))).
  rewrite (computeNodeKey_unfold _ _ (Some (make_node nm txt attrs cs'))).
  cbn [name child_value children].
  set (a := computeAttributesKey _ _ (Some (make_node nm txt attrs cs))).
  change (computeAttributesKey stringHasher hash_key
            (Some (make_node nm txt attrs cs'))) with a.
  set (X := spec.xor_all (map _ cs)). set (X' := spec.xor_all (map _ cs')).
  change (combineKeysUniquely hash_key
            ([stringHasher nm; stringHasher txt; a] ++ [X])
          = combineKeysUniquely hash_key
              ([stringHasher nm; stringHasher txt; a] ++ [X'])
          <-> wrap (hash_key X) = wrap (hash_key X')).
  rewrite !combineKeysUniquely_snoc. apply mix_injective.
Qed.

(** X6: two nodes with the same name, text and attributes have the same
    key exactly when the hashes of their two children keys agree on 64
    bits, where the children key is the fold of the program over the
    children: the mixing never hides a change of the children key. *)
Theorem computeNodeKey_children_change
    (stringHasher : string -> Key) (hash_key : Key -> Key)
    (nm txt : string) (attrs : list xml_attribute)
    (cs cs' : list xml_node_struct) :
  let childrenKey (children : list xml_node_struct) :=
    fold_left
      (fun partialKey child =>
         combineKeysLoosely2 partialKey
           (computeNodeKey stringHasher hash_key (Some child)))
      children 0 in
  computeNodeKey stringHasher hash_key (Some (make_node nm txt attrs cs))
  = computeNodeKey stringHasher hash_key (Some (make_node nm txt attrs cs'))
  <-> wrap (hash_key (childrenKey cs)) = wrap (hash_key (childrenKey cs')).
Proof.
  intros childrenKey. unfold childrenKey.
  rewrite !fold_left_combineKeysLoosely2, !Z.lxor_0_l.
  apply computeNodeKey_children_iff.
Qed.

(** X7: where [std::hash<std::size_t>] has no collision among keys (as the
    identity has none), giving a node one more child leaves its key
    unchanged exactly when the key of that child is zero. *)
Theorem computeNodeKey_added_child
    (stringHasher : string -> Key) (hash_key : Key -> Key)
    (nm txt : string) (attrs : list xml_attribute)
    (c : xml_node_struct) (cs : list xml_node_struct) :
  (forall a b, in_range a -> in_range b ->
     wrap (hash_key a) = wrap (hash_key b) -> a = b) ->
  computeNodeKey stringHasher hash_key (Some (make_node nm txt attrs (c :: cs)))
  = computeNodeKey stringHasher hash_key (Some (make_node nm txt attrs cs))
  <-> computeNodeKey stringHasher hash_key (Some c) = 0.
Proof.
  intros Hinj. rewrite computeNodeKey_children_iff.
  set (key := fun n => computeNodeKey stringHasher hash_key (Some n)).
  change (computeNodeKey stringHasher hash_key (Some c)) with (key c).
  cbn [map spec.xor_all fold_right]. fold (spec.xor_all (map key cs)).
  set (X := spec.xor_all (map key cs)).
  assert (HX : in_range X).
  { apply xor_all_in_range, Forall_forall. intros k Hk.
    apply in_map_iff in Hk. destruct Hk as [n [<- _]].
    apply computeNodeKey_in_range. }
  assert (Hc : in_range (key c)) by apply computeNodeKey_in_range.
  split; intros H.
  - apply Hinj in H; [| now apply key_xor_in_range | exact HX].
    apply (lxor_cancel_l X). rewrite Z.lxor_0_r, Z.lxor_comm. exact H.
  - rewrite H. now rewrite Z.lxor_0_l.
Qed.

(** X7 at the identity hash and the tree [<r><x/><y/></r>], whose child
    [<x/>] is added to [<r><y/></r>]. *)
Lemma computeNodeKey_added_child_example :
  let x := make_node "x"%string EmptyString [] [] in
  let y := make_node "y"%string EmptyString [] [] in
  (forall a b, in_range a -> in_range b ->
     wrap (std_hash.identity_hash_key a) = wrap (std_hash.identity_hash_key b) ->
     a = b) /\
  (computeNodeKey std_hash.fnv1a_hash_string std_hash.identity_hash_key
     (Some (make_node "r"%string EmptyString [] [x; y]))
   = computeNodeKey std_hash.fnv1a_hash_string std_hash.identity_hash_key
       (Some (make_node "r"%string EmptyString [] [y]))
   <-> computeNodeKey std_hash.fnv1a_hash_string std_hash.identity_hash_key
         (Some x) = 0).
Proof.
  intros x y.
  assert (Hinj : forall a b, in_range a -> in_range b ->
            wrap (std_hash.identity_hash_key a)
            = wrap (std_hash.identity_hash_key b) -> a = b).
  { intros a b Ha Hb. unfold std_hash.identity_hash_key.
    now rewrite !wrap_small. }
  split; [exact Hinj |].
  exact (computeNodeKey_added_child
           std_hash.fnv1a_hash_string std_hash.identity_hash_key
           "r"%string EmptyString [] x [y] Hinj).
Defined.

(** ** The matcher as a relation on documents *)

(** X8: the matcher is an equivalence on documents: every document matches
    itself, the answer does not depend on which document is passed first,
    and two documents that match a third one match each other. *)
Theorem matchXMLDocumentsLoosely_equivalence
    (stringHasher : string -> Key) (hash_key : Key -> Key)
    (docA docB docC : xml_document) :
  matchXMLDocumentsLoosely stringHasher hash_key docA docA = true /\
  matchXMLDocumentsLoosely stringHasher hash_key docA docB
  = matchXMLDocumentsLoosely stringHasher hash_key docB docA /\
  (matchXMLDocumentsLoosely stringHasher hash_key docA docB = true ->
   matchXMLDocumentsLoosely stringHasher hash_key docB docC = true ->
   matchXMLDocumentsLoosely stringHasher hash_key docA docC = true).
Proof.
  split; [apply matchXMLDocumentsLoosely_true_iff; reflexivity |].
  split; [apply Z.eqb_sym |].
  rewrite !matchXMLDocumentsLoosely_true_iff. congruence.
Qed.

(** * The test harness *)

Section HarnessProperties.
Import test.

Variable stringHasher : string -> Key.
Variable hash_key : Key -> Key.
Variable fs_path : Type.
Variable path_of : string -> fs_path.
Variable path_append : fs_path -> string -> fs_path.
Variable load_file : fs_path -> xml_parse_result * xml_document.

Local Abbreviation loads := (test.loads fs_path path_of path_append load_file).
Local Abbreviation document_of :=
  (test.document_of fs_path path_of path_append load_file).
Local Abbreviation failure_line :=
  (test.failure_line fs_path path_of path_append load_file).
Local Abbreviation loadXmlFile :=
  (test.loadXmlFile fs_path path_of path_append load_file).
Local Abbreviation executeTest :=
  (test.executeTest stringHasher hash_key fs_path path_of path_append load_file).
Local Abbreviation executeTests :=
  (test.executeTests stringHasher hash_key fs_path path_of path_append load_file).
Local Abbreviation runTests :=
  (test.runTests stringHasher hash_key fs_path path_of path_append load_file).
Local Abbreviation main :=
  (test.main stringHasher hash_key fs_path path_of path_append load_file).
Local Abbreviation matchLoosely :=
  (matchXMLDocumentsLoosely stringHasher hash_key).

Local Abbreviation test_line :=
  (test.test_line stringHasher hash_key fs_path path_of path_append load_file).
Local Abbreviation report :=
  (test.report stringHasher hash_key fs_path path_of path_append load_file).
Local Abbreviation culprit :=
  (test.culprit fs_path path_of path_append load_file).

Lemma loads_dec (xmlFile : string) : {loads xmlFile} + {~ loads xmlFile}.
Proof. unfold test.loads. apply bool_dec. Defined.

Lemma loadXmlFile_loads (xmlFile : string) out :
  loads xmlFile ->
  loadXmlFile xmlFile out = (returned (document_of xmlFile), out).
Proof.
  unfold test.loads, test.loadXmlFile, test.document_of. intros H.
  destruct (load_file _) as [loadResult xmlDocument]. cbn [fst snd] in *.
  now rewrite H.
Qed.

Lemma loadXmlFile_fails (xmlFile : string) out :
  ~ loads xmlFile ->
  loadXmlFile xmlFile out = (aborted, out ++ failure_line xmlFile).
Proof.
  unfold test.loads, test.loadXmlFile, test.failure_line. intros H.
  destruct (load_file _) as [loadResult xmlDocument]. cbn [fst snd] in *.
  destruct (parse_ok loadResult); [congruence | reflexivity].
Qed.

Lemma executeTest_runs lhsXmlFile rhsXmlFile expectedEquivalency out :
  loads lhsXmlFile -> loads rhsXmlFile ->
  executeTest lhsXmlFile rhsXmlFile expectedEquivalency out
  = (returned tt,
     out ++ test_line lhsXmlFile rhsXmlFile expectedEquivalency).
Proof.
  intros Hl Hr. unfold test.executeTest, bind.
  rewrite (loadXmlFile_loads _ _ Hl), (loadXmlFile_loads _ _ Hr).
  unfold cout, test.test_line, test.verdict, test_header.
  destruct (Bool.eqb _ _); now rewrite <- app_assoc.
Qed.

Lemma executeTest_aborts_lhs lhsXmlFile rhsXmlFile expectedEquivalency out :
  ~ loads lhsXmlFile ->
  executeTest lhsXmlFile rhsXmlFile expectedEquivalency out
  = (aborted, out ++ failure_line lhsXmlFile).
Proof.
  intros Hl. unfold test.executeTest, bind.
  now rewrite (loadXmlFile_fails _ _ Hl).
Qed.

Lemma executeTest_aborts_rhs lhsXmlFile rhsXmlFile expectedEquivalency out :
  loads lhsXmlFile -> ~ loads rhsXmlFile ->
  executeTest lhsXmlFile rhsXmlFile expectedEquivalency out
  = (aborted, out ++ failure_line rhsXmlFile).
Proof.
  intros Hl Hr. unfold test.executeTest, bind.
  now rewrite (loadXmlFile_loads _ _ Hl), (loadXmlFile_fails _ _ Hr).
Qed.

Lemma executeTest_aborts lhsXmlFile rhsXmlFile expectedEquivalency out :
  ~ (loads lhsXmlFile /\ loads rhsXmlFile) ->
  ~ loads (culprit lhsXmlFile rhsXmlFile) /\
  executeTest lhsXmlFile rhsXmlFile expectedEquivalency out
  = (aborted, out ++ failure_line (culprit lhsXmlFile rhsXmlFile)).
Proof.
  intros H. unfold test.culprit.
  destruct (loads_dec lhsXmlFile) as [Hl | Hl].
  - assert (Hr : ~ loads rhsXmlFile) by tauto.
    unfold test.loads in Hl. rewrite Hl.
    split; [exact Hr | now apply executeTest_aborts_rhs].
  - assert (E : parse_ok
                  (fst (load_file
                          (path_append (GetTestDataDirectory fs_path path_of)
                                       lhsXmlFile))) = false).
    { unfold test.loads in Hl. now destruct (parse_ok _). }
    rewrite E. split; [exact Hl | now apply executeTest_aborts_lhs].
Qed.

(** When all the files load, every test runs and then the rest, after the
    lines of the tests. *)
Lemma executeTests_all_load cases rest out :
  Forall loads (files_of cases) ->
  executeTests cases rest out = rest (out ++ report cases).
Proof.
  revert out. induction cases as [| [[l r] e] cases IH]; intros out H.
  - cbn. now rewrite app_nil_r.
  - cbn [files_of flat_map fst snd app] in H.
    inversion H as [| ? ? Hl H']; subst. inversion H' as [| ? ? Hr H'']; subst.
    cbn [test.executeTests]. unfold bind.
    rewrite (executeTest_runs _ _ _ _ Hl Hr), (IH _ H'').
    cbn [test.report flat_map fst snd]. now rewrite app_assoc.
Qed.

(** When some file does not load, the run aborts in the first test that
    cannot load both its files, after the lines of the tests before it. *)
Lemma executeTests_some_fails cases rest out :
  ~ Forall loads (files_of cases) ->
  exists before l r e after,
    cases = before ++ (l, r, e) :: after /\
    Forall loads (files_of before) /\
    ~ loads (culprit l r) /\
    executeTests cases rest out
    = (aborted, out ++ report before ++ failure_line (culprit l r)).
Proof.
  revert out. induction cases as [| [[l r] e] cases IH]; intros out H.
  - exfalso. apply H. constructor.
  - destruct (loads_dec l) as [Hl | Hl];
      [destruct (loads_dec r) as [Hr | Hr] |].
    + assert (H' : ~ Forall loads (files_of cases)).
      { intros HF. apply H. cbn [files_of flat_map fst snd app].
        now repeat constructor. }
      destruct (IH (out ++ test_line l r e) H')
        as (before & l' & r' & e' & after & -> & HF & Hc & E).
      exists ((l, r, e) :: before), l', r', e', after.
      split; [reflexivity |]. split.
      * cbn [files_of flat_map fst snd app]. now repeat constructor.
      * split; [exact Hc |].
        cbn [test.executeTests]. unfold bind.
        rewrite (executeTest_runs _ _ _ _ Hl Hr), E.
        cbn [test.report flat_map fst snd]. now rewrite <- !app_assoc.
    + exists [], l, r, e, cases.
      destruct (executeTest_aborts l r e out) as [Hc E]; [tauto |].
      split; [reflexivity |]. split; [constructor |]. split; [exact Hc |].
      cbn [test.executeTests]. unfold bind. now rewrite E.
    + exists [], l, r, e, cases.
      destruct (executeTest_aborts l r e out) as [Hc E]; [tauto |].
      split; [reflexivity |]. split; [constructor |]. split; [exact Hc |].
      cbn [test.executeTests]. unfold bind. now rewrite E.
Qed.

(** [runTests] is the sequence of the tests of [test_cases] between its
    two writes. *)
Lemma runTests_executeTests out :
  runTests out
  = executeTests test_cases
      (cout fs_path [cout_text newline; cout_endl])
      (out ++ [cout_text (newline ++ newline)%string]).
Proof. reflexivity. Qed.

(** X9: a test whose two files load returns without abort, having written
    its header and then its verdict and [std::endl]; the verdict is PASSED
    when the answer of the matcher on the two documents is the expected
    one, and FAILED otherwise. *)
Theorem executeTest_verdict lhsXmlFile rhsXmlFile expectedEquivalency out :
  loads lhsXmlFile -> loads rhsXmlFile ->
  executeTest lhsXmlFile rhsXmlFile expectedEquivalency out
  = (returned tt,
     out ++ test_header fs_path lhsXmlFile rhsXmlFile expectedEquivalency
         ++ [cout_text
               (if Bool.eqb
                     (matchLoosely (document_of lhsXmlFile)
                                   (document_of rhsXmlFile))
                     expectedEquivalency
                then "PASSED"%string else "FAILED"%string);
             cout_endl]).
Proof. intros Hl Hr. now apply executeTest_runs. Qed.

(** X10: a test of two files that load and hold documents whose roots are
    isomorphic up to the order of attributes and of sibling children
    writes PASSED when equivalence is expected, and FAILED when it is
    not. *)
Theorem executeTest_isomorphic_documents
    lhsXmlFile rhsXmlFile expectedEquivalency out :
  loads lhsXmlFile -> loads rhsXmlFile ->
  spec.roots_isomorphic (document_element (document_of lhsXmlFile))
                        (document_element (document_of rhsXmlFile)) ->
  executeTest lhsXmlFile rhsXmlFile expectedEquivalency out
  = (returned tt,
     out ++ test_header fs_path lhsXmlFile rhsXmlFile expectedEquivalency
         ++ [cout_text
               (if expectedEquivalency
                then "PASSED"%string else "FAILED"%string);
             cout_endl]).
Proof.
  intros Hl Hr Hiso. rewrite (executeTest_runs _ _ _ _ Hl Hr).
  unfold test.test_line, test.verdict.
  assert (E : matchLoosely (document_of lhsXmlFile) (document_of rhsXmlFile)
              = true).
  { apply matchXMLDocumentsLoosely_true_iff.
    destruct Hiso as [| a b Hab]; [reflexivity |].
    now apply computeNodeKey_loosely_isomorphic. }
  rewrite E. now destruct expectedEquivalency.
Qed.

(** X11: a test that cannot load both its files aborts, and all it writes
    is the failure line of one file: of the left file when that one does
    not load, whatever the right one does, and of the right file
    otherwise. Neither header nor verdict is written. *)
Theorem executeTest_load_failure
    lhsXmlFile rhsXmlFile expectedEquivalency out :
  ~ (loads lhsXmlFile /\ loads rhsXmlFile) ->
  ~ loads (culprit lhsXmlFile rhsXmlFile) /\
  executeTest lhsXmlFile rhsXmlFile expectedEquivalency out
  = (aborted, out ++ failure_line (culprit lhsXmlFile rhsXmlFile)).
Proof. apply executeTest_aborts. Qed.

(** X12: when the eighteen files all load, [main] returns 0, whatever the
    verdicts, and what it writes is two line feeds, then the line of each
    of the nine tests in order, then a line feed and [std::endl]. *)
Theorem main_all_files_load out :
  Forall loads test_files ->
  main out
  = (returned 0,
     out ++ [cout_text (newline ++ newline)%string]
         ++ report test_cases
         ++ [cout_text newline; cout_endl]).
Proof.
  intros H. unfold test.main, bind. rewrite runTests_executeTests.
  rewrite (executeTests_all_load _ _ _ H). unfold cout, ret.
  now rewrite <- !app_assoc.
Qed.

(** X13: when one of the eighteen files does not load, [main] aborts in
    the first test that cannot load both its files. All it has written
    then is the two line feeds, the lines of the tests before that one,
    and the failure line of the file whose load failed, which ends with
    [std::endl]. *)
Theorem main_some_file_fails out :
  ~ Forall loads test_files ->
  exists before l r e after,
    test_cases = before ++ (l, r, e) :: after /\
    Forall loads (files_of before) /\
    ~ loads (culprit l r) /\
    main out
    = (aborted,
       out ++ [cout_text (newline ++ newline)%string]
           ++ report before
           ++ failure_line (culprit l r)).
Proof.
  intros H.
  destruct (executeTests_some_fails test_cases
              (cout fs_path [cout_text newline; cout_endl])
              (out ++ [cout_text (newline ++ newline)%string]) H)
    as (before & l & r & e & after & Hcases & HF & Hc & E).
  exists before, l, r, e, after.
  split; [exact Hcases |]. split; [exact HF |]. split; [exact Hc |].
  unfold test.main, bind. rewrite runTests_executeTests, E.
  now rewrite <- !app_assoc.
Qed.

End HarnessProperties.

(** ** The harness on the two sets of test data *)

(** X9 on [1.xml] and [2.xml] of the first set, with FNV-1a hashes. *)
Lemma executeTest_verdict_example :
  test.executeTest std_hash.fnv1a_hash_string std_hash.fnv1a_hash_key
    string test_data.path_of test_data.path_append test_data.two_files
    "1.xml" "2.xml" true []
  = (test.returned tt,
     [] ++ test.test_header string "1.xml" "2.xml" true
        ++ [test.cout_text
              (if Bool.eqb
                    (matchXMLDocumentsLoosely
                       std_hash.fnv1a_hash_string std_hash.fnv1a_hash_key
                       (test.document_of string test_data.path_of
                          test_data.path_append test_data.two_files "1.xml")
                       (test.document_of string test_data.path_of
                          test_data.path_append test_data.two_files "2.xml"))
                    true
               then "PASSED"%string else "FAILED"%string);
            test.cout_endl]).
Proof.
  apply (executeTest_verdict
           std_hash.fnv1a_hash_string std_hash.fnv1a_hash_key
           string test_data.path_of test_data.path_append test_data.two_files
           "1.xml" "2.xml" true []); reflexivity.
Defined.

(** X10 on the same two files, which differ in the order of their
    attributes. *)
Lemma executeTest_isomorphic_documents_example :
  test.executeTest std_hash.fnv1a_hash_string std_hash.fnv1a_hash_key
    string test_data.path_of test_data.path_append test_data.two_files
    "1.xml" "2.xml" true []
  = (test.returned tt,
     [] ++ test.test_header string "1.xml" "2.xml" true
        ++ [test.cout_text "PASSED"; test.cout_endl]).
Proof.
  apply (executeTest_isomorphic_documents
           std_hash.fnv1a_hash_string std_hash.fnv1a_hash_key
           string test_data.path_of test_data.path_append test_data.two_files
           "1.xml" "2.xml" true []); try reflexivity.
  apply spec.roots_isomorphic_nodes.
  apply spec.loosely_isomorphic_node with (csB' := []).
  - apply perm_swap.
  - constructor.
  - apply Permutation_refl.
Defined.

(** X11 on [1.xml], which exists in the first set, and [3.xml], which does
    not. *)
Lemma executeTest_load_failure_example :
  ~ test.loads string test_data.path_of test_data.path_append
      test_data.two_files
      (test.culprit string test_data.path_of test_data.path_append
         test_data.two_files "1.xml" "3.xml") /\
  test.executeTest std_hash.fnv1a_hash_string std_hash.fnv1a_hash_key
    string test_data.path_of test_data.path_append test_data.two_files
    "1.xml" "3.xml" true []
  = (test.aborted,
     [] ++ test.failure_line string test_data.path_of test_data.path_append
             test_data.two_files
             (test.culprit string test_data.path_of test_data.path_append
                test_data.two_files "1.xml" "3.xml")).
Proof.
  apply (executeTest_load_failure
           std_hash.fnv1a_hash_string std_hash.fnv1a_hash_key
           string test_data.path_of test_data.path_append test_data.two_files
           "1.xml" "3.xml" true []).
  intros [_ H]. vm_compute in H. discriminate.
Defined.

(** X12 on the second set, where every file exists. *)
Lemma main_all_files_load_example :
  test.main std_hash.fnv1a_hash_string std_hash.fnv1a_hash_key
    string test_data.path_of test_data.path_append test_data.every_file []
  = (test.returned 0,
     [] ++ [test.cout_text (test.newline ++ test.newline)%string]
        ++ test.report std_hash.fnv1a_hash_string std_hash.fnv1a_hash_key
             string test_data.path_of test_data.path_append
             test_data.every_file test.test_cases
        ++ [test.cout_text test.newline; test.cout_endl]).
Proof.
  apply (main_all_files_load
           std_hash.fnv1a_hash_string std_hash.fnv1a_hash_key
           string test_data.path_of test_data.path_append
           test_data.every_file []).
  repeat constructor.
Defined.

(** X13 on the first set, where the second test finds no [3.xml]. *)
Lemma main_some_file_fails_example :
  exists before l r e after,
    test.test_cases = before ++ (l, r, e) :: after /\
    Forall (test.loads string test_data.path_of test_data.path_append
              test_data.two_files)
           (test.files_of before) /\
    ~ test.loads string test_data.path_of test_data.path_append
        test_data.two_files
        (test.culprit string test_data.path_of test_data.path_append
           test_data.two_files l r) /\
    test.main std_hash.fnv1a_hash_string std_hash.fnv1a_hash_key
      string test_data.path_of test_data.path_append test_data.two_files []
    = (test.aborted,
       [] ++ [test.cout_text (test.newline ++ test.newline)%string]
          ++ test.report std_hash.fnv1a_hash_string std_hash.fnv1a_hash_key
               string test_data.path_of test_data.path_append
               test_data.two_files before
          ++ test.failure_line string test_data.path_of
               test_data.path_append test_data.two_files
               (test.culprit string test_data.path_of test_data.path_append
                  test_data.two_files l r)).
Proof.
  apply (main_some_file_fails
           std_hash.fnv1a_hash_string std_hash.fnv1a_hash_key
           string test_data.path_of test_data.path_append
           test_data.two_files []).
  intros H.
  inversion H as [| ? ? _ H1]; subst.
  inversion H1 as [| ? ? _ H2]; subst.
  inversion H2 as [| ? ? H3 _]; subst.
  vm_compute in H3. discriminate.
Defined.
